(** * TitanicPredictor: parsing, scoring and summary of the passenger data

    Embedding of src/src/components/TitanicPredictor.tsx.

    - A JavaScript number is an IEEE-754 binary64 value: Rocq's primitive
      [float], whose operations compute in the kernel exactly as the JS
      engine does (nan comparisons are false, +0 and -0 compare equal).
    - A JavaScript string is a sequence of UTF-16 code units: [list N].
    - [Partial<Passenger>] is a record of options; [None] stands for a
      property that is [undefined] or [null], which every use in the code
      treats alike (both are falsy and neither is [=== 1] or ['female']). *)

From Stdlib Require Import List Bool NArith ZArith Lia String Ascii.
From Stdlib Require Import PrimFloat Permutation.
Import ListNotations.

Local Open Scope float_scope.
(** Decimal literals of the source denote their nearest binary64 value, as in JS. *)
Local Set Warnings "-inexact-float".

(** ** JavaScript values and built-ins used by the component *)

Definition jsstring := list N.

(** A string literal of the source, as its code units. *)
Definition lit (s : string) : jsstring :=
  map (fun a => N_of_ascii a) (list_ascii_of_string s).

(** [a === b] on strings: same code units. *)
Fixpoint js_str_eqb (a b : jsstring) : bool :=
  match a, b with
  | [], [] => true
  | x :: a', y :: b' => N.eqb x y && js_str_eqb a' b'
  | _, _ => false
  end.

(** JS truthiness of a number: [0], [-0] and [NaN] are falsy. *)
Definition num_truthy (x : float) : bool :=
  negb (is_nan x) && negb (x =? 0).

(** [x || d] for a number-valued property that may be absent. *)
Definition num_or (x : option float) (d : float) : float :=
  match x with
  | Some v => if num_truthy v then v else d
  | None => d
  end.

(** [x === c] for an optional number and a number literal. *)
Definition num_opt_eqb (x : option float) (c : float) : bool :=
  match x with Some v => v =? c | None => false end.

(** [x === s] for an optional string and a string literal. *)
Definition str_opt_eqb (x : option jsstring) (s : jsstring) : bool :=
  match x with Some v => js_str_eqb v s | None => false end.

Definition is_neg_zero (x : float) : bool :=
  is_zero x && get_sign x.

(** [Math.min] and [Math.max] on two arguments (ECMA-262 21.3.2.24/25):
    [NaN] if either is [NaN]; [-0] is smaller than [+0]. *)
Definition math_min (x y : float) : float :=
  if is_nan x || is_nan y then nan
  else if x <? y then x
  else if y <? x then y
  else if is_neg_zero x then x else y.

Definition math_max (x y : float) : float :=
  if is_nan x || is_nan y then nan
  else if y <? x then x
  else if x <? y then y
  else if is_neg_zero x then y else x.

(** ** Data model *)

(** [Partial<Passenger>], the argument of [predictSurvival]. *)
Record Passenger := mkPassenger {
  PassengerId : option float;
  Survived : option float;
  Pclass : option float;
  Name : option jsstring;
  Sex : option jsstring;
  Age : option float;
  SibSp : option float;
  Parch : option float;
  Ticket : option jsstring;
  Fare : option float;
  Cabin : option jsstring;
  Embarked : option jsstring
}.

(** [{}]: the wholly empty input. *)
Definition empty_passenger : Passenger :=
  mkPassenger None None None None None None None None None None None None.

Record Prediction := mkPrediction {
  probability : float;
  survived : bool
}.

(** ** predictSurvival, one definition per block of the source *)

Module Scorer.

(** Gender: [if (passenger.Sex === 'female') score += 0.35 else score -= 0.25] *)
Definition sex_rule (sex : option jsstring) (score : float) : float :=
  if str_opt_eqb sex (lit "female") then score + 0.35 else score - 0.25.

(** Class *)
Definition class_rule (pclass : option float) (score : float) : float :=
  if num_opt_eqb pclass 1 then score + 0.2
  else if num_opt_eqb pclass 2 then score + 0.05
  else score - 0.15.

(** Age, applied to [const age = passenger.Age || 30] *)
Definition age_rule (age : float) (score : float) : float :=
  if age <? 16 then score + 0.1
  else if 60 <? age then score - 0.1
  else score.

(** Family size, applied to
    [const familySize = (passenger.SibSp || 0) + (passenger.Parch || 0)] *)
Definition family_rule (familySize : float) (score : float) : float :=
  if (0 <? familySize) && (familySize <? 4) then score + 0.05
  else if 4 <=? familySize then score - 0.1
  else score.

(** Fare, applied to [const fare = passenger.Fare || 15] *)
Definition fare_rule (fare : float) (score : float) : float :=
  if 50 <? fare then score + 0.1
  else if fare <? 10 then score - 0.05
  else score.

(** The running score before clamping. *)
Definition raw_score (passenger : Passenger) : float :=
  let score := 0.5 in
  let score := sex_rule passenger.(Sex) score in
  let score := class_rule passenger.(Pclass) score in
  let age := num_or passenger.(Age) 30 in
  let score := age_rule age score in
  let familySize := num_or passenger.(SibSp) 0 + num_or passenger.(Parch) 0 in
  let score := family_rule familySize score in
  let fare := num_or passenger.(Fare) 15 in
  fare_rule fare score.

Definition predictSurvival (passenger : Passenger) : Prediction :=
  let score := raw_score passenger in
  let probability := math_max 0 (math_min 1 score) in
  mkPrediction probability (0.5 <? probability).

End Scorer.

Import Scorer.

(** The two scenarios of the spec, section 8. *)
Example scenario_male_third :
  predictSurvival (mkPassenger None None (Some 3) None (Some (lit "male"))
    (Some 30) (Some 0) (Some 0) None (Some 15) None (Some (lit "S")))
  = mkPrediction 0.1 false.
Proof. vm_compute. reflexivity. Qed.

Example scenario_female_first :
  predictSurvival (mkPassenger None None (Some 1) None (Some (lit "female"))
    (Some 10) (Some 1) (Some 1) None (Some 80) None (Some (lit "C")))
  = mkPrediction 1 true.
Proof. vm_compute. reflexivity. Qed.

(** ** CSV parsing *)

Module Csv.

Definition quote_char : N := 34%N.  (* double quote *)
Definition comma_char : N := 44%N.  (* comma *)
Definition newline_char : N := 10%N. (* line feed *)

(** [String.prototype.split] with a one-code-unit separator. *)
Fixpoint split_go (sep : N) (s cur : jsstring) : list jsstring :=
  match s with
  | [] => [cur]
  | c :: s' => if N.eqb c sep then cur :: split_go sep s' [] else split_go sep s' (cur ++ [c])
  end.

Definition split_on (sep : N) (s : jsstring) : list jsstring := split_go sep s [].

(** WhiteSpace and LineTerminator code units (ECMA-262 12.2, 12.3), the
    ones [String.prototype.trim] removes. *)
Definition is_ws (c : N) : bool :=
  N.eqb c 9 || N.eqb c 10 || N.eqb c 11 || N.eqb c 12 || N.eqb c 13 || N.eqb c 32
  || N.eqb c 160 || N.eqb c 5760 || (N.leb 8192 c && N.leb c 8202)
  || N.eqb c 8232 || N.eqb c 8233 || N.eqb c 8239 || N.eqb c 8287
  || N.eqb c 12288 || N.eqb c 65279.

Fixpoint trim_start (s : jsstring) : jsstring :=
  match s with
  | c :: s' => if is_ws c then trim_start s' else s
  | [] => []
  end.

Definition trim_end (s : jsstring) : jsstring := rev (trim_start (rev s)).

(** [String.prototype.trim] *)
Definition js_trim (s : jsstring) : jsstring := trim_end (trim_start s).

(** [.replace] of every double-quote character by the empty string (a
    global regular expression) *)
Definition strip_quotes (s : jsstring) : jsstring :=
  filter (fun c => negb (N.eqb c quote_char)) s.

(** The loop state of [parseCSVLine]: [result], [current], [inQuotes]. *)
Record LineState := mkLineState {
  result : list jsstring;
  current : jsstring;
  inQuotes : bool
}.

Definition line_init : LineState := mkLineState [] [] false.

(** One iteration of the [for] loop over [line]. *)
Definition line_step (st : LineState) (char : N) : LineState :=
  if N.eqb char quote_char then
    mkLineState st.(result) st.(current) (negb st.(inQuotes))
  else if N.eqb char comma_char && negb st.(inQuotes) then
    mkLineState (st.(result) ++ [st.(current)]) [] st.(inQuotes)
  else
    mkLineState st.(result) (st.(current) ++ [char]) st.(inQuotes).

Definition line_run (line : jsstring) : LineState := fold_left line_step line line_init.

Definition parseCSVLine (line : jsstring) : list jsstring :=
  let st := line_run line in
  st.(result) ++ [st.(current)].

(** The properties set on [const passenger: any = {}]. *)
Inductive jsvalue := JNum (x : float) | JNull | JStr (s : jsstring).

Definition jsobject := list (jsstring * jsvalue).

(** An own data property write: overwrite the property if present, else add it. *)
Fixpoint set_own (obj : jsobject) (key : jsstring) (v : jsvalue) : jsobject :=
  match obj with
  | [] => [(key, v)]
  | (k, w) :: obj' =>
      if js_str_eqb k key then (k, v) :: obj' else (k, w) :: set_own obj' key v
  end.

(** [obj[key] = v] on a plain object literal. Every key is an own data
    property write except [__proto__], an accessor inherited from
    [Object.prototype]: its setter creates no own property and ignores a
    value that is not an object (every value written here is a number, a
    string or null; the header [__proto__] is coerced to a string). *)
Definition set_prop (obj : jsobject) (key : jsstring) (v : jsvalue) : jsobject :=
  if js_str_eqb key (lit "__proto__") then obj else set_own obj key v.

Section ParseCSV.

(** The JS built-ins [parseInt] and [parseFloat] (of one string argument);
    they are not code of the repository, and every result below holds for
    any functions in their place. *)
Variable parseInt : jsstring -> float.
Variable parseFloat : jsstring -> float.

(** [values[index]?.replace(...) || ''] with the quote stripping above: an
    index past the end gives [undefined], hence the empty string. *)
Definition field_value (values : list jsstring) (index : nat) : jsstring :=
  match nth_error values index with
  | Some v => match strip_quotes v with [] => [] | r => r end
  | None => []
  end.

(** The [switch (header)] of the [forEach] body. *)
Definition coerce (header value : jsstring) : jsvalue :=
  if existsb (js_str_eqb header)
       [lit "PassengerId"; lit "Survived"; lit "Pclass"; lit "SibSp"; lit "Parch"]
  then JNum (num_or (Some (parseInt value)) 0)
  else if existsb (js_str_eqb header) [lit "Age"; lit "Fare"]
  then match value with [] => JNull | _ => JNum (parseFloat value) end
  else JStr value.

Fixpoint fill (headers : list jsstring) (index : nat) (values : list jsstring)
    (passenger : jsobject) : jsobject :=
  match headers with
  | [] => passenger
  | header :: hs =>
      fill hs (S index) values
        (set_prop passenger header (coerce header (field_value values index)))
  end.

(** The [map] callback: one record per line. *)
Definition row_of (headers : list jsstring) (line : jsstring) : jsobject :=
  let values := parseCSVLine line in
  fill headers 0 values [].

Definition parseCSV (csvText : jsstring) : list jsobject :=
  let lines := split_on newline_char (js_trim csvText) in
  let headers := split_on comma_char (hd [] lines) in
  map (row_of headers) (tl lines).

End ParseCSV.

(** Lines joined with a separator, as a file or a line is written. *)
Fixpoint join_with (sep : N) (ls : list jsstring) : jsstring :=
  match ls with
  | [] => []
  | [x] => x
  | x :: ls' => x ++ sep :: join_with sep ls'
  end.

(** A field wrapped in double quotes. *)
Definition wrap_quotes (f : jsstring) : jsstring := quote_char :: f ++ [quote_char].

Definition no_char (c : N) (s : jsstring) : bool := forallb (fun x => negb (N.eqb x c)) s.
Definition has_non_ws (s : jsstring) : bool := existsb (fun x => negb (is_ws x)) s.
Definition all_ws (s : jsstring) : bool := forallb is_ws s.

(** The lines with [trim_end] applied to the last one. *)
Fixpoint trim_end_last (ls : list jsstring) : list jsstring :=
  match ls with
  | [] => []
  | [x] => [trim_end x]
  | x :: ls' => x :: trim_end_last ls'
  end.

End Csv.

Import Csv.

(** A line with a quoted field holding a comma. *)
Example parseCSVLine_quoted :
  parseCSVLine (lit "1," ++ [quote_char] ++ lit "Smith, John" ++ [quote_char] ++ lit ",3")
  = [lit "1"; lit "Smith, John"; lit "3"].
Proof. reflexivity. Qed.

(** An unbalanced quote: the rest of the line is one last field. *)
Example parseCSVLine_unbalanced :
  parseCSVLine (lit "a," ++ [quote_char] ++ lit "b,c") = [lit "a"; lit "b,c"].
Proof. reflexivity. Qed.

Example parseCSV_two_rows :
  List.length (parseCSV (fun _ => 0) (fun _ => 0)
    (lit " PassengerId,Sex" ++ [newline_char] ++ lit "1,male" ++ [newline_char]
     ++ lit "2,female" ++ [newline_char; newline_char])) = 2%nat.
Proof. reflexivity. Qed.

(** The own property [key] of a record object built by [parseCSV]: its
    value, [None] when the record has no own property of that name. *)
Definition get_prop (obj : jsobject) (key : jsstring) : option jsvalue :=
  match find (fun kv => js_str_eqb (fst kv) key) obj with
  | Some (_, v) => Some v
  | None => None
  end.

(** The number of occurrences of a code unit in a string. *)
Definition count_char (c : N) (s : jsstring) : nat :=
  List.length (filter (fun x => N.eqb x c) s).

(** The header groups of the [switch] of [parseCSV]. *)
Definition int_headers : list jsstring :=
  [lit "PassengerId"; lit "Survived"; lit "Pclass"; lit "SibSp"; lit "Parch"].
Definition float_headers : list jsstring := [lit "Age"; lit "Fare"].

(** ** The Key Factors list of the prediction panel *)

(** [input.age < 16 ? 'Child ...' : input.age > 60 ? 'Elderly ...' : 'Adult'],
    shown next to a prediction and computed from the raw form value. *)
Definition age_factor (age : float) : jsstring :=
  if age <? 16 then lit "Child (higher survival)"
  else if 60 <? age then lit "Elderly (lower survival)"
  else lit "Adult".

(** ** calculateModelStats *)

Record ModelStats := mkModelStats {
  accuracy : float;
  totalPassengers : float;
  survivedCount : float;
  deathCount : float
}.

(** A count as a JS number: [n] increments by 1 from 0, which is how
    [correctPredictions++] builds its count, and the exact value of an
    array [length] (below 2^32, so every step is exact). *)
Fixpoint num_of_nat (n : nat) : float :=
  match n with
  | O => 0
  | S k => num_of_nat k + 1
  end.

(** The condition of the [forEach] body. *)
Definition prediction_matches (passenger : Passenger) : bool :=
  let predicted := predictSurvival passenger in
  (predicted.(survived) && num_opt_eqb passenger.(Survived) 1)
  || (negb predicted.(survived) && num_opt_eqb passenger.(Survived) 0).

(** [let correctPredictions = 0; passengers.forEach(...)] *)
Definition correctPredictions (passengers : list Passenger) : float :=
  fold_left (fun c passenger => if prediction_matches passenger then c + 1 else c)
    passengers 0.

Definition calculateModelStats (passengers : list Passenger) : ModelStats :=
  let totalPassengers := num_of_nat (List.length passengers) in
  let survivedCount :=
    num_of_nat (List.length (filter (fun p => num_opt_eqb p.(Survived) 1) passengers)) in
  let deathCount := totalPassengers - survivedCount in
  let accuracy := (correctPredictions passengers / totalPassengers) * 100 in
  mkModelStats accuracy totalPassengers survivedCount deathCount.

(** Single-property updates of the scorer's input, [{...p, Sex: v}] etc. *)
Definition with_sex (p : Passenger) (v : option jsstring) : Passenger :=
  mkPassenger p.(PassengerId) p.(Survived) p.(Pclass) p.(Name) v p.(Age)
    p.(SibSp) p.(Parch) p.(Ticket) p.(Fare) p.(Cabin) p.(Embarked).
Definition with_pclass (p : Passenger) (v : option float) : Passenger :=
  mkPassenger p.(PassengerId) p.(Survived) v p.(Name) p.(Sex) p.(Age)
    p.(SibSp) p.(Parch) p.(Ticket) p.(Fare) p.(Cabin) p.(Embarked).
Definition with_age (p : Passenger) (v : option float) : Passenger :=
  mkPassenger p.(PassengerId) p.(Survived) p.(Pclass) p.(Name) p.(Sex) v
    p.(SibSp) p.(Parch) p.(Ticket) p.(Fare) p.(Cabin) p.(Embarked).
Definition with_sibsp (p : Passenger) (v : option float) : Passenger :=
  mkPassenger p.(PassengerId) p.(Survived) p.(Pclass) p.(Name) p.(Sex) p.(Age)
    v p.(Parch) p.(Ticket) p.(Fare) p.(Cabin) p.(Embarked).
Definition with_parch (p : Passenger) (v : option float) : Passenger :=
  mkPassenger p.(PassengerId) p.(Survived) p.(Pclass) p.(Name) p.(Sex) p.(Age)
    p.(SibSp) v p.(Ticket) p.(Fare) p.(Cabin) p.(Embarked).
Definition with_fare (p : Passenger) (v : option float) : Passenger :=
  mkPassenger p.(PassengerId) p.(Survived) p.(Pclass) p.(Name) p.(Sex) p.(Age)
    p.(SibSp) p.(Parch) p.(Ticket) v p.(Cabin) p.(Embarked).
Definition with_embarked (p : Passenger) (v : option jsstring) : Passenger :=
  mkPassenger p.(PassengerId) p.(Survived) p.(Pclass) p.(Name) p.(Sex) p.(Age)
    p.(SibSp) p.(Parch) p.(Ticket) p.(Fare) p.(Cabin) v.

(** ** Each rule adds one of its constants, whatever its argument *)

Lemma sex_rule_cases x s : sex_rule x s = s + 0.35 \/ sex_rule x s = s - 0.25.
Proof. unfold sex_rule; destruct (str_opt_eqb _ _); auto. Qed.

Lemma class_rule_cases x s :
  class_rule x s = s + 0.2 \/ class_rule x s = s + 0.05 \/ class_rule x s = s - 0.15.
Proof. unfold class_rule; destruct (num_opt_eqb x 1), (num_opt_eqb x 2); auto. Qed.

Lemma age_rule_cases a s :
  age_rule a s = s + 0.1 \/ age_rule a s = s - 0.1 \/ age_rule a s = s.
Proof. unfold age_rule; destruct (a <? 16), (60 <? a); auto. Qed.

Lemma family_rule_cases f s :
  family_rule f s = s + 0.05 \/ family_rule f s = s - 0.1 \/ family_rule f s = s.
Proof. unfold family_rule; destruct (_ && _), (4 <=? f); auto. Qed.

Lemma fare_rule_cases f s :
  fare_rule f s = s + 0.1 \/ fare_rule f s = s - 0.05 \/ fare_rule f s = s.
Proof. unfold fare_rule; destruct (50 <? f), (f <? 10); auto. Qed.

(** Replace every rule application of the goal by one of its outcomes. *)
Ltac split_rules :=
  repeat match goal with
  | |- context [sex_rule ?x ?s] =>
      let E := fresh in destruct (sex_rule_cases x s) as [E|E]; rewrite E; clear E
  | |- context [class_rule ?x ?s] =>
      let E := fresh in destruct (class_rule_cases x s) as [E|[E|E]]; rewrite E; clear E
  | |- context [age_rule ?x ?s] =>
      let E := fresh in destruct (age_rule_cases x s) as [E|[E|E]]; rewrite E; clear E
  | |- context [family_rule ?x ?s] =>
      let E := fresh in destruct (family_rule_cases x s) as [E|[E|E]]; rewrite E; clear E
  | |- context [fare_rule ?x ?s] =>
      let E := fresh in destruct (fare_rule_cases x s) as [E|[E|E]]; rewrite E; clear E
  end.

(** Case on the conditions of the rules; equal conditions in two runs of
    the scorer are split together. *)
Ltac split_conds :=
  unfold sex_rule, class_rule, age_rule, family_rule, fare_rule;
  repeat match goal with
  | |- context [if ?c then _ else _] => destruct c
  end.

(** C1 *)
(** For every input, also the wholly empty one and inputs with NaN or absent
    numeric properties, [predictSurvival] returns a probability with
    [0 <= probability <= 1], and its verdict is [probability > 0.5]. *)
Theorem predictSurvival_probability_in_unit (p : Passenger) :
  (0 <=? probability (predictSurvival p)) = true /\
  (probability (predictSurvival p) <=? 1) = true /\
  survived (predictSurvival p) = (0.5 <? probability (predictSurvival p)).
Proof.
  split; [|split; [|reflexivity]];
  unfold predictSurvival, raw_score; cbv zeta; split_rules; vm_compute; reflexivity.
Qed.

Lemma sex_rule_female s : sex_rule (Some (lit "female")) s = s + 0.35.
Proof. reflexivity. Qed.
Lemma sex_rule_male s : sex_rule (Some (lit "male")) s = s - 0.25.
Proof. reflexivity. Qed.
Lemma class_rule_first s : class_rule (Some 1) s = s + 0.2.
Proof. reflexivity. Qed.
Lemma class_rule_third s : class_rule (Some 3) s = s - 0.15.
Proof. reflexivity. Qed.

(** C3 *)
(** Counterexample: for a first-class passenger with every other property
    absent, the male probability is 0.45 and the female one is clamped to 1,
    an increase of 0.55, not 0.60. *)
Lemma sex_switch_not_exactly_060 :
  probability (predictSurvival (with_sex (with_pclass empty_passenger (Some 1)) (Some (lit "female"))))
  - probability (predictSurvival (with_sex (with_pclass empty_passenger (Some 1)) (Some (lit "male"))))
  <> 0.6.
Proof.
  intro H.
  assert (Hb : Leibniz.eqb
    (probability (predictSurvival (with_sex (with_pclass empty_passenger (Some 1)) (Some (lit "female"))))
     - probability (predictSurvival (with_sex (with_pclass empty_passenger (Some 1)) (Some (lit "male")))))
    0.6 = true) by (rewrite H; reflexivity).
  vm_compute in Hb. discriminate Hb.
Qed.

Lemma sex_switch_increase (p : Passenger) :
  let rm := raw_score (with_sex p (Some (lit "male"))) in
  let rf := raw_score (with_sex p (Some (lit "female"))) in
  let pm := probability (predictSurvival (with_sex p (Some (lit "male")))) in
  let pf := probability (predictSurvival (with_sex p (Some (lit "female")))) in
  ((pm <? pf) &&
   implb ((0 <=? rm) && (rm <=? 1) && (0 <=? rf) && (rf <=? 1))
     ((pf - pm - 0.6 <=? 1e-15) && (0.6 - (pf - pm) <=? 1e-15)) &&
   implb (negb ((0 <=? rm) && (rm <=? 1) && (0 <=? rf) && (rf <=? 1)))
     (pf - pm <? 0.6)) = true.
Proof.
  cbv zeta. unfold predictSurvival, raw_score, with_sex; cbn [Sex Pclass Age SibSp Parch Fare].
  rewrite !sex_rule_female, !sex_rule_male.
  split_conds; vm_compute; reflexivity.
Qed.

Lemma class_switch_increase (p : Passenger) :
  let r3 := raw_score (with_pclass p (Some 3)) in
  let r1 := raw_score (with_pclass p (Some 1)) in
  let p3 := probability (predictSurvival (with_pclass p (Some 3))) in
  let p1 := probability (predictSurvival (with_pclass p (Some 1))) in
  ((p3 <? p1) &&
   implb ((0 <=? r3) && (r3 <=? 1) && (0 <=? r1) && (r1 <=? 1))
     ((p1 - p3 - 0.35 <=? 1e-15) && (0.35 - (p1 - p3) <=? 1e-15)) &&
   implb (negb ((0 <=? r3) && (r3 <=? 1) && (0 <=? r1) && (r1 <=? 1)))
     (p1 - p3 <? 0.35)) = true.
Proof.
  cbv zeta. unfold predictSurvival, raw_score, with_pclass; cbn [Sex Pclass Age SibSp Parch Fare].
  rewrite !class_rule_first, !class_rule_third.
  split_conds; vm_compute; reflexivity.
Qed.

(** C3 (amended) *)
(** Holding every other property fixed, switching [Sex] from ['male'] to
    ['female'] strictly increases the probability, and switching [Pclass]
    from 3 to 1 strictly increases it too. When neither of the two raw
    scores (before the clamp) leaves [0,1], the increase is 0.60 (resp.
    0.35) up to binary64 rounding, within 1e-15; when the clamp to [0,1]
    applies to either of them, the increase is strictly smaller than 0.60
    (resp. 0.35). *)
Theorem sex_and_class_switch_increase (p : Passenger) :
  let rm := raw_score (with_sex p (Some (lit "male"))) in
  let rf := raw_score (with_sex p (Some (lit "female"))) in
  let pm := probability (predictSurvival (with_sex p (Some (lit "male")))) in
  let pf := probability (predictSurvival (with_sex p (Some (lit "female")))) in
  let r3 := raw_score (with_pclass p (Some 3)) in
  let r1 := raw_score (with_pclass p (Some 1)) in
  let p3 := probability (predictSurvival (with_pclass p (Some 3))) in
  let p1 := probability (predictSurvival (with_pclass p (Some 1))) in
  ((pm <? pf) &&
   implb ((0 <=? rm) && (rm <=? 1) && (0 <=? rf) && (rf <=? 1))
     ((pf - pm - 0.6 <=? 1e-15) && (0.6 - (pf - pm) <=? 1e-15)) &&
   implb (negb ((0 <=? rm) && (rm <=? 1) && (0 <=? rf) && (rf <=? 1)))
     (pf - pm <? 0.6) &&
   (p3 <? p1) &&
   implb ((0 <=? r3) && (r3 <=? 1) && (0 <=? r1) && (r1 <=? 1))
     ((p1 - p3 - 0.35 <=? 1e-15) && (0.35 - (p1 - p3) <=? 1e-15)) &&
   implb (negb ((0 <=? r3) && (r3 <=? 1) && (0 <=? r1) && (r1 <=? 1)))
     (p1 - p3 <? 0.35)) = true.
Proof.
  cbv zeta. pose proof (sex_switch_increase p) as Hs. pose proof (class_switch_increase p) as Hc.
  cbv zeta in Hs, Hc.
  repeat match goal with H : (_ && _) = true |- _ => apply andb_true_iff in H as [? ?] end.
  repeat (apply andb_true_intro; split); assumption.
Qed.

(** C2 *)
(** At the input the claim singles out, a present age of 0, the age rule
    does not add the child adjustment: [passenger.Age || 30] turns the
    falsy 0 into 30, so the score is left as it is, while a present age
    of 5 gets the +0.10. *)
Theorem age_zero_child_adjustment_skipped (s : float) :
  age_rule (num_or (Some 0) 30) s = s /\
  age_rule (num_or (Some 5) 30) s = s + 0.1 /\
  predictSurvival (with_age empty_passenger (Some 0))
  = predictSurvival (with_age empty_passenger (Some 30)).
Proof. split; [|split]; reflexivity. Qed.

(** C4 *)
(** Counterexample: a NaN sibling/spouse count with a parent/child count
    of 1 still triggers the small-family bonus: [NaN || 0] is 0, so the
    family size is 1 and 0.05 is added. *)
Lemma nan_sibsp_family_rule_applies :
  family_rule (num_or (Some nan) 0 + num_or (Some 1) 0) 0.5 = 0.5 + 0.05 /\
  0.5 + 0.05 <> 0.5.
Proof.
  split; [reflexivity|].
  intro H. assert (Hb : Leibniz.eqb (0.5 + 0.05) 0.5 = true) by (rewrite H; reflexivity).
  vm_compute in Hb. discriminate Hb.
Qed.

(** C4 (amended) *)
(** A NaN numeric property never makes the scorer fail; it acts as follows:
    a NaN age, fare, sibling/spouse or parent/child count is treated as if
    absent (falsy, so [|| 30], [|| 15] or [|| 0] substitutes the default,
    and the age and fare rules add nothing while the family rule uses the
    other count alone); a NaN class is not [=== 1] nor [=== 2], so it gets
    the -0.15 of class 3. *)
Theorem nan_fields_act_as_absent (p : Passenger) :
  predictSurvival (with_age p (Some nan)) = predictSurvival (with_age p None) /\
  predictSurvival (with_fare p (Some nan)) = predictSurvival (with_fare p None) /\
  predictSurvival (with_sibsp p (Some nan)) = predictSurvival (with_sibsp p None) /\
  predictSurvival (with_parch p (Some nan)) = predictSurvival (with_parch p None) /\
  predictSurvival (with_pclass p (Some nan)) = predictSurvival (with_pclass p (Some 3)) /\
  (forall s, age_rule (num_or (Some nan) 30) s = s) /\
  (forall s, fare_rule (num_or (Some nan) 15) s = s) /\
  (forall s, class_rule (Some nan) s = s - 0.15).
Proof. repeat split; reflexivity. Qed.

(** C9 *)
(** The embarkation port does not affect the result: inputs that differ
    only in [Embarked] get the same probability and verdict. *)
Theorem predictSurvival_ignores_embarked (p : Passenger) (e : option jsstring) :
  predictSurvival (with_embarked p e) = predictSurvival p.
Proof. destruct p; reflexivity. Qed.

(** C10 *)
(** A zero age is scored as an absent age (30 substituted, no child
    adjustment) and a zero fare as an absent fare (15 substituted, no
    low-fare penalty). *)
Theorem zero_age_fare_as_absent (p : Passenger) :
  predictSurvival (with_age p (Some 0)) = predictSurvival (with_age p None) /\
  predictSurvival (with_fare p (Some 0)) = predictSurvival (with_fare p None).
Proof. split; reflexivity. Qed.

(** ** parseCSVLine: quoted fields and the final flush *)

Lemma line_steps_app (a b : jsstring) (st : LineState) :
  fold_left line_step (a ++ b) st = fold_left line_step b (fold_left line_step a st).
Proof. apply fold_left_app. Qed.

Lemma line_steps_in_quotes (f : jsstring) (r : list jsstring) (c : jsstring) :
  no_char quote_char f = true ->
  fold_left line_step f (mkLineState r c true) = mkLineState r (c ++ f) true.
Proof.
  revert c. induction f as [|x f IH]; intros c Hf.
  - rewrite app_nil_r. reflexivity.
  - cbn [no_char forallb] in Hf. apply andb_true_iff in Hf as [Hx Hf].
    apply negb_true_iff in Hx.
    cbn [fold_left]. unfold line_step at 2. cbn [result current inQuotes].
    rewrite Hx, andb_false_r, IH by exact Hf.
    rewrite <- app_assoc. reflexivity.
Qed.

Lemma line_steps_wrapped (f : jsstring) (r : list jsstring) (c : jsstring) :
  no_char quote_char f = true ->
  fold_left line_step (wrap_quotes f) (mkLineState r c false) = mkLineState r (c ++ f) false.
Proof.
  intro Hf. unfold wrap_quotes. cbn [fold_left].
  rewrite line_steps_app. unfold line_step at 2. cbn.
  rewrite line_steps_in_quotes by exact Hf. reflexivity.
Qed.

Lemma line_step_comma (r : list jsstring) (c : jsstring) :
  line_step (mkLineState r c false) comma_char = mkLineState (r ++ [c]) [] false.
Proof. reflexivity. Qed.

Lemma line_step_quote (r : list jsstring) (c : jsstring) (q : bool) :
  line_step (mkLineState r c q) quote_char = mkLineState r c (negb q).
Proof. reflexivity. Qed.

Lemma line_steps_wrapped_join (fs : list jsstring) (f : jsstring) (r : list jsstring) :
  forallb (no_char quote_char) (f :: fs) = true ->
  let st := fold_left line_step (join_with comma_char (map wrap_quotes (f :: fs)))
              (mkLineState r [] false) in
  st.(result) ++ [st.(current)] = r ++ f :: fs /\ st.(inQuotes) = false.
Proof.
  revert f r. induction fs as [|g fs IH]; intros f r Hall; cbv zeta.
  - cbn [forallb] in Hall. rewrite andb_true_r in Hall.
    cbn [map join_with]. rewrite line_steps_wrapped by exact Hall. auto.
  - cbn [forallb] in Hall. apply andb_true_iff in Hall as [Hf Hall].
    change (join_with comma_char (map wrap_quotes (f :: g :: fs)))
      with (wrap_quotes f ++ comma_char :: join_with comma_char (map wrap_quotes (g :: fs))).
    rewrite line_steps_app, line_steps_wrapped by exact Hf.
    cbn [fold_left]. rewrite line_step_comma, app_nil_l.
    destruct (IH g (r ++ [f]) Hall) as [H1 H2]. cbv zeta in H1, H2.
    split; [rewrite H1, <- app_assoc; reflexivity | exact H2].
Qed.

Lemma strip_quotes_no_quote (f : jsstring) :
  no_char quote_char f = true -> strip_quotes f = f.
Proof.
  induction f as [|x f IH]; intro Hf; [reflexivity|].
  cbn [no_char forallb] in Hf. apply andb_true_iff in Hf as [Hx Hf].
  cbn [strip_quotes filter]. unfold strip_quotes in IH. rewrite Hx, IH by exact Hf. reflexivity.
Qed.

(** C5 *)
(** Round trip of quoted fields: fields without quote characters (commas
    allowed), each wrapped in double quotes and joined with commas into a
    line, are split back by [parseCSVLine] into exactly those fields, and
    the quote stripping of [parseCSV] gives back each original text. *)
Theorem parseCSVLine_quoted_roundtrip (f : jsstring) (fs : list jsstring) :
  forallb (no_char quote_char) (f :: fs) = true ->
  let line := join_with comma_char (map wrap_quotes (f :: fs)) in
  parseCSVLine line = f :: fs /\
  (forall i, field_value (parseCSVLine line) i = nth i (f :: fs) []).
Proof.
  intros Hall line.
  assert (Hp : parseCSVLine line = f :: fs).
  { unfold parseCSVLine, line_run, line_init.
    destruct (line_steps_wrapped_join fs f [] Hall) as [H _]. exact H. }
  split; [exact Hp|]. intro i. rewrite Hp. unfold field_value.
  destruct (nth_error (f :: fs) i) eqn:E.
  - rewrite (nth_error_nth _ _ _ E).
    apply nth_error_In in E. rewrite forallb_forall in Hall.
    rewrite strip_quotes_no_quote by (apply Hall; exact E).
    destruct j; reflexivity.
  - rewrite nth_overflow; [reflexivity|]. apply nth_error_None. exact E.
Qed.

(** C7 *)
(** The final field is flushed whatever the [inQuotes] flag: every line
    gives at least one field, the last one being [current] at the end of
    the loop; and after an unquoted comma, an opening quote that is never
    closed makes the whole rest of the line, commas included, the last
    field. *)
Theorem parseCSVLine_final_flush :
  (forall line, parseCSVLine line <> [] /\
     last (parseCSVLine line) [] = (line_run line).(current)) /\
  (forall p t, no_char quote_char t = true -> (line_run p).(inQuotes) = false ->
     parseCSVLine (p ++ comma_char :: quote_char :: t) = parseCSVLine p ++ [t]).
Proof.
  split.
  - intro line. unfold parseCSVLine. split.
    + intro H. symmetry in H. exact (app_cons_not_nil _ _ _ H).
    + apply last_last.
  - intros p t Ht Hq. unfold parseCSVLine. unfold line_run at 1 2.
    rewrite line_steps_app. fold (line_run p).
    destruct (line_run p) as [r c q]. cbn in Hq. subst q.
    cbn [fold_left]. rewrite line_step_comma, line_step_quote. cbn [negb].
    rewrite line_steps_in_quotes by exact Ht. cbn [result current].
    rewrite app_nil_l, <- app_assoc. reflexivity.
Qed.

Lemma parseCSVLine_final_flush_witness :
  parseCSVLine (lit "a" ++ comma_char :: quote_char :: lit "b,c")
  = parseCSVLine (lit "a") ++ [lit "b,c"].
Proof.
  apply (proj2 parseCSVLine_final_flush); reflexivity.
Defined.

Lemma parseCSVLine_quoted_roundtrip_witness :
  parseCSVLine (join_with comma_char (map wrap_quotes [lit "Smith, John"; lit "S"]))
  = [lit "Smith, John"; lit "S"].
Proof.
  apply (proj1 (parseCSVLine_quoted_roundtrip (lit "Smith, John") [lit "S"] eq_refl)).
Defined.

(** ** parseCSV: one record per line after the header *)

Lemma trim_start_app (a b : jsstring) :
  has_non_ws a = true -> trim_start (a ++ b) = trim_start a ++ b.
Proof.
  induction a as [|c a IH]; intro H; [discriminate H|].
  cbn [has_non_ws existsb] in H. cbn [trim_start app].
  destruct (is_ws c) eqn:Ec; [|reflexivity].
  apply IH. exact H.
Qed.

Lemma trim_start_ws (w b : jsstring) :
  all_ws w = true -> trim_start (w ++ b) = trim_start b.
Proof.
  induction w as [|c w IH]; intro H; [reflexivity|].
  cbn [all_ws forallb] in H. apply andb_true_iff in H as [Hc H].
  cbn [trim_start app]. rewrite Hc. apply IH. exact H.
Qed.

Lemma has_non_ws_rev (s : jsstring) : has_non_ws (rev s) = has_non_ws s.
Proof.
  unfold has_non_ws. induction s as [|c s IH]; [reflexivity|].
  cbn [rev existsb]. rewrite existsb_app, IH. cbn [existsb].
  rewrite orb_false_r, orb_comm. reflexivity.
Qed.

Lemma all_ws_rev (s : jsstring) : all_ws (rev s) = all_ws s.
Proof.
  unfold all_ws. induction s as [|c s IH]; [reflexivity|].
  cbn [rev forallb]. rewrite forallb_app, IH. cbn [forallb].
  rewrite andb_true_r, andb_comm. reflexivity.
Qed.

Lemma trim_end_app (a b : jsstring) :
  has_non_ws b = true -> trim_end (a ++ b) = a ++ trim_end b.
Proof.
  intro H. unfold trim_end. rewrite rev_app_distr, trim_start_app.
  - rewrite rev_app_distr, rev_involutive. reflexivity.
  - rewrite has_non_ws_rev. exact H.
Qed.

Lemma trim_end_ws (b w : jsstring) :
  all_ws w = true -> trim_end (b ++ w) = trim_end b.
Proof.
  intro H. unfold trim_end. rewrite rev_app_distr, trim_start_ws; [reflexivity|].
  rewrite all_ws_rev. exact H.
Qed.

Lemma trim_start_has_non_ws (s : jsstring) :
  has_non_ws s = true -> has_non_ws (trim_start s) = true.
Proof.
  induction s as [|c s IH]; intro H; [discriminate H|].
  cbn [trim_start]. destruct (is_ws c) eqn:Ec; [|exact H].
  apply IH. cbn [has_non_ws existsb] in H. rewrite Ec in H. exact H.
Qed.

Lemma trim_start_no_char (c : N) (s : jsstring) :
  no_char c s = true -> no_char c (trim_start s) = true.
Proof.
  induction s as [|x s IH]; intro H; [reflexivity|].
  cbn [trim_start]. destruct (is_ws x); [|exact H].
  apply IH. cbn [no_char forallb] in H. apply andb_true_iff in H as [_ H]. exact H.
Qed.

Lemma no_char_rev (c : N) (s : jsstring) : no_char c (rev s) = no_char c s.
Proof.
  unfold no_char. induction s as [|x s IH]; [reflexivity|].
  cbn [rev forallb]. rewrite forallb_app, IH. cbn [forallb].
  rewrite andb_true_r, andb_comm. reflexivity.
Qed.

Lemma trim_end_no_char (c : N) (s : jsstring) :
  no_char c s = true -> no_char c (trim_end s) = true.
Proof.
  intro H. unfold trim_end. rewrite no_char_rev.
  apply trim_start_no_char. rewrite no_char_rev. exact H.
Qed.

Lemma join_has_non_ws (l : jsstring) (ls : list jsstring) :
  has_non_ws (last (l :: ls) []) = true -> has_non_ws (join_with newline_char (l :: ls)) = true.
Proof.
  revert l. induction ls as [|l' ls IH]; intros l H; [exact H|].
  change (join_with newline_char (l :: l' :: ls))
    with (l ++ newline_char :: join_with newline_char (l' :: ls)).
  unfold has_non_ws in *. rewrite existsb_app. cbn [existsb].
  rewrite (IH l' H). rewrite !orb_true_r. reflexivity.
Qed.

Lemma trim_end_last_length (ls : list jsstring) :
  List.length (trim_end_last ls) = List.length ls.
Proof.
  induction ls as [|l ls IH]; [reflexivity|].
  destruct ls as [|l' ls]; [reflexivity|].
  change (trim_end_last (l :: l' :: ls)) with (l :: trim_end_last (l' :: ls)).
  cbn [List.length]. rewrite IH. reflexivity.
Qed.

Lemma trim_end_join (l : jsstring) (ls : list jsstring) :
  has_non_ws (last (l :: ls) []) = true ->
  trim_end (join_with newline_char (l :: ls)) = join_with newline_char (trim_end_last (l :: ls)).
Proof.
  revert l. induction ls as [|l' ls IH]; intros l H; [reflexivity|].
  change (join_with newline_char (l :: l' :: ls))
    with (l ++ [newline_char] ++ join_with newline_char (l' :: ls)).
  pose proof (join_has_non_ws l' ls H) as HJ.
  rewrite trim_end_app by (unfold has_non_ws in *; rewrite existsb_app, HJ, orb_true_r; reflexivity).
  rewrite trim_end_app by exact HJ.
  rewrite (IH l' H).
  change (trim_end_last (l :: l' :: ls)) with (l :: trim_end_last (l' :: ls)).
  pose proof (trim_end_last_length (l' :: ls)) as Hlen.
  destruct (trim_end_last (l' :: ls)) as [|y ys]; [discriminate Hlen|reflexivity].
Qed.

Lemma split_go_no_char (sep : N) (a b cur : jsstring) :
  no_char sep a = true ->
  split_go sep (a ++ sep :: b) cur = (cur ++ a) :: split_go sep b [] /\
  split_go sep a cur = [cur ++ a].
Proof.
  revert cur. induction a as [|x a IH]; intros cur H.
  - cbn. rewrite N.eqb_refl, app_nil_r. auto.
  - cbn [no_char forallb] in H. apply andb_true_iff in H as [Hx H].
    apply negb_true_iff in Hx. cbn [app split_go]. rewrite Hx.
    destruct (IH (cur ++ [x]) H) as [H1 H2]. rewrite H1, H2, <- app_assoc. auto.
Qed.

Lemma split_join (ls : list jsstring) :
  ls <> [] -> forallb (no_char newline_char) ls = true ->
  split_on newline_char (join_with newline_char ls) = ls.
Proof.
  unfold split_on. induction ls as [|l ls IH]; intros Hne H; [contradiction|].
  cbn [forallb] in H. apply andb_true_iff in H as [Hl H].
  destruct ls as [|l' ls].
  - cbn [join_with]. destruct (split_go_no_char newline_char l [] [] Hl) as [_ H2]. exact H2.
  - change (join_with newline_char (l :: l' :: ls))
      with (l ++ newline_char :: join_with newline_char (l' :: ls)).
    destruct (split_go_no_char newline_char l (join_with newline_char (l' :: ls)) [] Hl) as [H1 _].
    rewrite H1, IH by (discriminate || exact H). reflexivity.
Qed.

Lemma trim_end_last_no_char (c : N) (ls : list jsstring) :
  forallb (no_char c) ls = true -> forallb (no_char c) (trim_end_last ls) = true.
Proof.
  induction ls as [|l ls IH]; intro H; [reflexivity|].
  cbn [forallb] in H. apply andb_true_iff in H as [Hl H].
  destruct ls as [|l' ls].
  - cbn. rewrite trim_end_no_char by exact Hl. reflexivity.
  - change (trim_end_last (l :: l' :: ls)) with (l :: trim_end_last (l' :: ls)).
    cbn [forallb]. rewrite Hl, IH by exact H. reflexivity.
Qed.



Lemma trim_start_join (h : jsstring) (rows : list jsstring) (w : jsstring) :
  has_non_ws h = true ->
  trim_start (join_with newline_char (h :: rows) ++ w)
  = join_with newline_char (trim_start h :: rows) ++ w.
Proof.
  intro H. destruct rows as [|r rs].
  - apply trim_start_app. exact H.
  - change (join_with newline_char (h :: r :: rs))
      with (h ++ newline_char :: join_with newline_char (r :: rs)).
    change (join_with newline_char (trim_start h :: r :: rs))
      with (trim_start h ++ newline_char :: join_with newline_char (r :: rs)).
    rewrite <- !app_assoc. apply trim_start_app. exact H.
Qed.

Lemma tl_trim_end_last (x : jsstring) (rows : list jsstring) :
  tl (trim_end_last (x :: rows)) = trim_end_last rows.
Proof. destruct rows; reflexivity. Qed.

(** C6 *)
(** For a text made of a header line and data lines (no line feed inside a
    line, some non-whitespace character on the header and on the last line)
    followed by any trailing whitespace such as a final line feed,
    [parseCSV] gives exactly one record per data line, in the order of the
    lines: the record of line i is built from that line, the last line
    losing only its trailing whitespace to [trim]. So the number of records
    is the number of lines minus one. *)
Theorem parseCSV_one_record_per_line
    (parseInt parseFloat : jsstring -> float)
    (h : jsstring) (rows : list jsstring) (w : jsstring) :
  forallb (no_char newline_char) (h :: rows) = true ->
  has_non_ws h = true ->
  has_non_ws (last (h :: rows) []) = true ->
  all_ws w = true ->
  let out := parseCSV parseInt parseFloat (join_with newline_char (h :: rows) ++ w) in
  List.length out = List.length rows /\
  out = map (row_of parseInt parseFloat
               (split_on comma_char (hd [] (trim_end_last (trim_start h :: rows)))))
            (trim_end_last rows).
Proof.
  intros Hnl Hh Hlast Hw out.
  assert (Hout : out = map (row_of parseInt parseFloat
               (split_on comma_char (hd [] (trim_end_last (trim_start h :: rows)))))
            (trim_end_last rows)).
  { unfold out, parseCSV, js_trim.
    rewrite trim_start_join by exact Hh.
    rewrite trim_end_ws by exact Hw.
    rewrite trim_end_join.
    2:{ destruct rows as [|r rs].
        - apply trim_start_has_non_ws. exact Hh.
        - exact Hlast. }
    rewrite split_join.
    - rewrite tl_trim_end_last. reflexivity.
    - intro E. apply (f_equal (@List.length jsstring)) in E.
      rewrite trim_end_last_length in E. discriminate E.
    - apply trim_end_last_no_char. cbn [forallb] in Hnl |- *.
      apply andb_true_iff in Hnl as [H1 H2].
      rewrite trim_start_no_char by exact H1. exact H2. }
  split; [|exact Hout].
  rewrite Hout, length_map, trim_end_last_length. reflexivity.
Qed.

Lemma parseCSV_one_record_per_line_witness :
  List.length (parseCSV (fun _ => 0) (fun _ => 0)
    (join_with newline_char [lit "PassengerId,Sex"; lit "1,male"; lit "2,female"]
     ++ [newline_char]))
  = List.length [lit "1,male"; lit "2,female"].
Proof.
  apply (proj1 (parseCSV_one_record_per_line (fun _ => 0) (fun _ => 0)
    (lit "PassengerId,Sex") [lit "1,male"; lit "2,female"] [newline_char]
    eq_refl eq_refl eq_refl eq_refl)).
Defined.

(** ** Further properties of the scorer *)

(** The prediction reads only [Sex], [Pclass], [Age], [SibSp], [Parch]
    and [Fare]: two inputs that agree on those six properties get the same
    probability and verdict, whatever their [PassengerId], [Survived]
    label, [Name], [Ticket], [Cabin] or [Embarked]. *)
Theorem predictSurvival_reads_six_fields (p q : Passenger) :
  p.(Sex) = q.(Sex) -> p.(Pclass) = q.(Pclass) -> p.(Age) = q.(Age) ->
  p.(SibSp) = q.(SibSp) -> p.(Parch) = q.(Parch) -> p.(Fare) = q.(Fare) ->
  predictSurvival p = predictSurvival q.
Proof.
  destruct p, q; cbn; intros H1 H2 H3 H4 H5 H6; subst; reflexivity.
Qed.

Lemma predictSurvival_reads_six_fields_witness :
  predictSurvival (mkPassenger (Some 1) (Some 0) (Some 2) (Some (lit "A")) (Some (lit "female"))
    (Some 20) (Some 1) (Some 0) (Some (lit "T1")) (Some 30) (Some (lit "C1")) (Some (lit "S")))
  = predictSurvival (mkPassenger (Some 2) (Some 1) (Some 2) (Some (lit "B")) (Some (lit "female"))
    (Some 20) (Some 1) (Some 0) (Some (lit "T2")) (Some 30) None (Some (lit "Q"))).
Proof. apply predictSurvival_reads_six_fields; reflexivity. Defined.

(** Any [Sex] other than exactly ['female'] (absent, ['Female'],
    ['F'], the empty string, ...) is scored exactly as ['male']. *)
Theorem non_female_scored_as_male (p : Passenger) (x : jsstring) :
  js_str_eqb x (lit "female") = false ->
  predictSurvival (with_sex p (Some x)) = predictSurvival (with_sex p (Some (lit "male"))) /\
  predictSurvival (with_sex p None) = predictSurvival (with_sex p (Some (lit "male"))).
Proof.
  intro Hx. unfold predictSurvival, raw_score, with_sex; cbn [Sex Pclass Age SibSp Parch Fare].
  rewrite sex_rule_male.
  assert (E : sex_rule (Some x) 0.5 = 0.5 - 0.25) by (unfold sex_rule; cbn [str_opt_eqb]; rewrite Hx; reflexivity).
  rewrite E. split; reflexivity.
Qed.

Lemma non_female_scored_as_male_witness :
  predictSurvival (with_sex empty_passenger (Some (lit "Female")))
  = predictSurvival (with_sex empty_passenger (Some (lit "male"))).
Proof. apply (proj1 (non_female_scored_as_male empty_passenger (lit "Female") eq_refl)). Defined.

(** Any [Pclass] that is neither [=== 1] nor [=== 2] (absent, 0, 4,
    2.5, NaN, ...) is scored exactly as class 3. *)
Theorem other_class_scored_as_third (p : Passenger) (c : float) :
  (c =? 1) = false -> (c =? 2) = false ->
  predictSurvival (with_pclass p (Some c)) = predictSurvival (with_pclass p (Some 3)) /\
  predictSurvival (with_pclass p None) = predictSurvival (with_pclass p (Some 3)).
Proof.
  intros H1 H2. unfold predictSurvival, raw_score, with_pclass; cbn [Sex Pclass Age SibSp Parch Fare].
  rewrite (class_rule_third (sex_rule (Sex p) 0.5)).
  assert (E : forall s, class_rule (Some c) s = s - 0.15)
    by (intro s; unfold class_rule; cbn [num_opt_eqb]; rewrite H1, H2; reflexivity).
  rewrite E. split; reflexivity.
Qed.

Lemma other_class_scored_as_third_witness :
  predictSurvival (with_pclass empty_passenger (Some 2.5))
  = predictSurvival (with_pclass empty_passenger (Some 3)).
Proof. apply (proj1 (other_class_scored_as_third empty_passenger 2.5 eq_refl eq_refl)). Defined.

(** An age that passes neither test of the age rule ([age < 16] false and
    [age > 60] false: every age from 16 to 60, and NaN) is scored exactly
    as an absent age; likewise a fare with [fare > 50] and [fare < 10]
    both false (10 to 50, NaN) is scored as an absent fare. *)
Theorem middle_age_and_fare_scored_as_absent (p : Passenger) (a f : float) :
  (a <? 16) = false -> (60 <? a) = false ->
  (50 <? f) = false -> (f <? 10) = false ->
  predictSurvival (with_age p (Some a)) = predictSurvival (with_age p None) /\
  predictSurvival (with_fare p (Some f)) = predictSurvival (with_fare p None).
Proof.
  intros Ha1 Ha2 Hf1 Hf2.
  assert (EA : forall s, age_rule (num_or (Some a) 30) s = age_rule 30 s).
  { intro s. cbn [num_or]. destruct (num_truthy a); [|reflexivity].
    unfold age_rule. rewrite Ha1, Ha2. reflexivity. }
  assert (EF : forall s, fare_rule (num_or (Some f) 15) s = fare_rule 15 s).
  { intro s. cbn [num_or]. destruct (num_truthy f); [|reflexivity].
    unfold fare_rule. rewrite Hf1, Hf2. reflexivity. }
  unfold predictSurvival, raw_score, with_age, with_fare; cbn [Sex Pclass Age SibSp Parch Fare].
  rewrite EA, EF. split; reflexivity.
Qed.

Lemma middle_age_and_fare_scored_as_absent_witness :
  predictSurvival (with_age empty_passenger (Some 60)) = predictSurvival (with_age empty_passenger None).
Proof.
  apply (proj1 (middle_age_and_fare_scored_as_absent empty_passenger 60 50
    eq_refl eq_refl eq_refl eq_refl)).
Defined.

(** Decision regions: a female passenger of class 1 or 2 is always
    predicted to survive, and a male passenger of class 3 never is,
    whatever the age, family and fare. *)
Theorem female_upper_class_survives_male_third_does_not (p : Passenger) :
  survived (predictSurvival (with_sex (with_pclass p (Some 1)) (Some (lit "female")))) = true /\
  survived (predictSurvival (with_sex (with_pclass p (Some 2)) (Some (lit "female")))) = true /\
  survived (predictSurvival (with_sex (with_pclass p (Some 3)) (Some (lit "male")))) = false.
Proof.
  unfold predictSurvival, raw_score, with_sex, with_pclass; cbn [Sex Pclass Age SibSp Parch Fare].
  rewrite sex_rule_female, sex_rule_male, class_rule_first, class_rule_third.
  assert (E2 : forall s, class_rule (Some 2) s = s + 0.05) by reflexivity. rewrite E2.
  split_conds; vm_compute; repeat split; reflexivity.
Qed.

(** The Key Factors age label agrees with the scorer's age rule for every
    truthy age (not 0, -0 or NaN): 'Child' exactly when +0.10 is added,
    'Elderly' exactly when 0.10 is taken off. At age 0 they disagree: the
    label says 'Child' while the scorer, reading [0 || 30], adds nothing. *)
Theorem age_factor_matches_age_rule (a s : float) :
  (num_truthy a = true ->
   age_rule (num_or (Some a) 30) s =
     (if js_str_eqb (age_factor a) (lit "Child (higher survival)") then s + 0.1
      else if js_str_eqb (age_factor a) (lit "Elderly (lower survival)") then s - 0.1
      else s)) /\
  age_factor 0 = lit "Child (higher survival)" /\
  age_rule (num_or (Some 0) 30) s = s.
Proof.
  split; [|split; reflexivity].
  intro Ht. cbn [num_or]. rewrite Ht. unfold age_rule, age_factor.
  destruct (a <? 16); [reflexivity|]. destruct (60 <? a); reflexivity.
Qed.

Lemma age_factor_matches_age_rule_witness :
  age_rule (num_or (Some 70) 30) 0.5 = 0.5 - 0.1.
Proof. apply (proj1 (age_factor_matches_age_rule 70 0.5)). reflexivity. Defined.

(** ** Further properties of calculateModelStats *)

(** An empty record list gives zero counts and a NaN accuracy ([0 / 0]). *)
Theorem calculateModelStats_empty :
  is_nan (accuracy (calculateModelStats [])) = true /\
  totalPassengers (calculateModelStats []) = 0 /\
  survivedCount (calculateModelStats []) = 0 /\
  deathCount (calculateModelStats []) = 0.
Proof. vm_compute. repeat split; reflexivity. Qed.

Lemma correctPredictions_from (passengers : list Passenger) (k : nat) :
  fold_left (fun c passenger => if prediction_matches passenger then c + 1 else c)
    passengers (num_of_nat k)
  = num_of_nat (k + List.length (filter prediction_matches passengers)).
Proof.
  revert k. induction passengers as [|p ps IH]; intro k.
  - cbn. rewrite Nat.add_0_r. reflexivity.
  - cbn [fold_left filter]. destruct (prediction_matches p).
    + change (num_of_nat k + 1) with (num_of_nat (S k)). rewrite IH.
      cbn [List.length]. rewrite Nat.add_succ_r. reflexivity.
    + apply IH.
Qed.

Lemma correctPredictions_count (passengers : list Passenger) :
  correctPredictions passengers
  = num_of_nat (List.length (filter prediction_matches passengers)).
Proof. apply (correctPredictions_from passengers 0). Qed.

Lemma filter_length_perm (f : Passenger -> bool) (l l' : list Passenger) :
  Permutation.Permutation l l' -> List.length (filter f l) = List.length (filter f l').
Proof.
  induction 1 as [|x l l' _ IH|x y l|l l' l'' _ IH1 _ IH2]; cbn [filter].
  - reflexivity.
  - destruct (f x); cbn [List.length]; rewrite IH; reflexivity.
  - destruct (f x), (f y); reflexivity.
  - rewrite IH1; exact IH2.
Qed.

(** The summary does not depend on the order of the records: a permuted
    record list gives the same accuracy and counts. *)
Theorem calculateModelStats_permutation (l l' : list Passenger) :
  Permutation.Permutation l l' -> calculateModelStats l = calculateModelStats l'.
Proof.
  intro H. unfold calculateModelStats.
  rewrite !correctPredictions_count, (filter_length_perm _ _ _ H),
    (filter_length_perm (fun p => num_opt_eqb (Survived p) 1) _ _ H),
    (Permutation.Permutation_length H).
  reflexivity.
Qed.

Lemma calculateModelStats_permutation_witness :
  calculateModelStats [with_sex empty_passenger (Some (lit "female")); empty_passenger]
  = calculateModelStats [empty_passenger; with_sex empty_passenger (Some (lit "female"))].
Proof. apply calculateModelStats_permutation. apply Permutation.perm_swap. Defined.

(** [correctPredictions] is the exact number of records whose verdict
    matches their label, and a record whose [Survived] label is neither 1
    nor 0 (absent, 2, NaN, ...) is never counted as correct: appending one
    leaves [correctPredictions] unchanged while [totalPassengers] grows. *)
Theorem correctPredictions_ignores_other_labels (l : list Passenger) (p : Passenger) :
  num_opt_eqb p.(Survived) 1 = false -> num_opt_eqb p.(Survived) 0 = false ->
  correctPredictions l = num_of_nat (List.length (filter prediction_matches l)) /\
  correctPredictions (l ++ [p]) = correctPredictions l /\
  totalPassengers (calculateModelStats (l ++ [p]))
  = totalPassengers (calculateModelStats l) + 1.
Proof.
  intros H1 H0. split; [apply correctPredictions_count|split].
  - rewrite !correctPredictions_count, filter_app. cbn [filter].
    unfold prediction_matches at 2. rewrite H1, H0, !andb_false_r. cbn [orb].
    rewrite app_nil_r. reflexivity.
  - unfold calculateModelStats. cbn [totalPassengers].
    rewrite length_app, Nat.add_1_r. reflexivity.
Qed.

Lemma correctPredictions_ignores_other_labels_witness :
  correctPredictions ([empty_passenger] ++ [with_sex empty_passenger (Some (lit "female"))])
  = correctPredictions [empty_passenger].
Proof.
  apply (proj1 (proj2 (correctPredictions_ignores_other_labels [empty_passenger]
    (with_sex empty_passenger (Some (lit "female"))) eq_refl eq_refl))).
Defined.

(** ** Further properties of parseCSVLine *)

Lemma line_step_plain (r : list jsstring) (c : jsstring) (x : N) :
  N.eqb x quote_char = false ->
  line_step (mkLineState r c false) x
  = if N.eqb x comma_char then mkLineState (r ++ [c]) [] false
    else mkLineState r (c ++ [x]) false.
Proof. intro H. unfold line_step. cbn [result current inQuotes]. rewrite H.
  destruct (N.eqb x comma_char); reflexivity. Qed.

Lemma line_steps_split (s : jsstring) (r : list jsstring) (c : jsstring) :
  no_char quote_char s = true ->
  let st := fold_left line_step s (mkLineState r c false) in
  st.(result) ++ [st.(current)] = r ++ split_go comma_char s c.
Proof.
  revert r c. induction s as [|x s IH]; intros r c H; cbv zeta; [reflexivity|].
  cbn [no_char forallb] in H. apply andb_true_iff in H as [Hx H]. apply negb_true_iff in Hx.
  cbn [fold_left split_go]. rewrite line_step_plain by exact Hx.
  destruct (N.eqb x comma_char).
  - rewrite (IH (r ++ [c]) [] H), <- app_assoc. reflexivity.
  - exact (IH r (c ++ [x]) H).
Qed.

(** On a line without quote characters [parseCSVLine] splits exactly as
    [split(',')], the way [parseCSV] splits the header line, so header and
    values line up column by column. *)
Theorem parseCSVLine_no_quotes_is_split (line : jsstring) :
  no_char quote_char line = true -> parseCSVLine line = split_on comma_char line.
Proof. intro H. exact (line_steps_split line [] [] H). Qed.

Lemma parseCSVLine_no_quotes_is_split_witness :
  parseCSVLine (lit "1,0,3,,male") = split_on comma_char (lit "1,0,3,,male").
Proof. apply parseCSVLine_no_quotes_is_split. reflexivity. Defined.

Lemma join_with_snoc (sep : N) (l : list jsstring) (x : jsstring) :
  join_with sep (l ++ [x]) = match l with [] => x | _ => join_with sep l ++ sep :: x end.
Proof.
  induction l as [|a l IH]; [reflexivity|].
  destruct l as [|b l].
  - reflexivity.
  - change ((a :: b :: l) ++ [x]) with (a :: ((b :: l) ++ [x])).
    change (join_with sep (a :: (b :: l) ++ [x])) with (a ++ sep :: join_with sep ((b :: l) ++ [x])).
    rewrite IH. change (join_with sep (a :: b :: l)) with (a ++ sep :: join_with sep (b :: l)).
    rewrite <- app_assoc. reflexivity.
Qed.

(** The text a line state stands for: its fields joined by commas. *)
Lemma join_state_step (st : LineState) (x : N) :
  join_with comma_char ((line_step st x).(result) ++ [(line_step st x).(current)])
  = join_with comma_char (st.(result) ++ [st.(current)])
    ++ (if N.eqb x quote_char then [] else [x]).
Proof.
  destruct st as [r c q]. unfold line_step. cbn [result current inQuotes].
  destruct (N.eqb x quote_char) eqn:Eq; [rewrite app_nil_r; reflexivity|].
  destruct (N.eqb x comma_char && negb q) eqn:Ec; cbn [result current].
  - apply andb_true_iff in Ec as [Ec _]. apply N.eqb_eq in Ec. subst x.
    rewrite (join_with_snoc _ (r ++ [c]) []).
    destruct (r ++ [c]) as [|b l'] eqn:E; [destruct r; discriminate E|reflexivity].
  - rewrite !join_with_snoc. destruct r; [reflexivity|].
    rewrite <- app_assoc. reflexivity.
Qed.

Lemma join_state_steps (s : jsstring) (st : LineState) :
  let st' := fold_left line_step s st in
  join_with comma_char (st'.(result) ++ [st'.(current)])
  = join_with comma_char (st.(result) ++ [st.(current)]) ++ strip_quotes s.
Proof.
  revert st. induction s as [|x s IH]; intro st; cbv zeta.
  - rewrite app_nil_r. reflexivity.
  - cbn [fold_left]. rewrite IH, join_state_step.
    unfold strip_quotes. cbn [filter].
    destruct (N.eqb x quote_char); cbn [negb]; rewrite <- app_assoc; reflexivity.
Qed.

(** Joining the fields of any line with commas gives the line back without
    its quote characters: quotes only steer the splitting, every other code
    unit lands in a field, and the commas not kept in a field are exactly
    the separators. *)
Theorem parseCSVLine_join_roundtrip (line : jsstring) :
  join_with comma_char (parseCSVLine line) = strip_quotes line.
Proof. exact (join_state_steps line line_init). Qed.

(** ** Further properties of parseCSV *)

Lemma split_go_length (sep : N) (s cur : jsstring) :
  List.length (split_go sep s cur) = S (count_char sep s).
Proof.
  unfold count_char. revert cur. induction s as [|x s IH]; intro cur; [reflexivity|].
  cbn [split_go filter]. destruct (N.eqb x sep); cbn [List.length]; rewrite IH; reflexivity.
Qed.

(** For every text, [parseCSV] gives as many records as the trimmed text
    has line feeds; a text that is empty or only whitespace, and a text with
    just a header line, give no record. *)
Theorem parseCSV_length_is_newline_count (parseInt parseFloat : jsstring -> float)
    (text : jsstring) :
  List.length (parseCSV parseInt parseFloat text) = count_char newline_char (js_trim text) /\
  (all_ws text = true -> parseCSV parseInt parseFloat text = []).
Proof.
  assert (Hlen : List.length (parseCSV parseInt parseFloat text)
                 = count_char newline_char (js_trim text)).
  { unfold parseCSV. rewrite length_map.
    unfold split_on. destruct (split_go newline_char (js_trim text) []) as [|l ls] eqn:E.
    - apply (f_equal (@List.length jsstring)) in E. rewrite split_go_length in E. discriminate E.
    - apply (f_equal (@List.length jsstring)) in E. rewrite split_go_length in E.
      cbn [tl]. cbn [List.length] in E. injection E as E. symmetry. exact E. }
  split; [exact Hlen|].
  intro Hw. apply length_zero_iff_nil. rewrite Hlen.
  unfold js_trim. rewrite <- (app_nil_r text), trim_start_ws by exact Hw. reflexivity.
Qed.

Lemma parseCSV_length_is_newline_count_witness :
  parseCSV (fun _ => 0) (fun _ => 0) (lit " ") = [].
Proof. apply (proj2 (parseCSV_length_is_newline_count (fun _ => 0) (fun _ => 0) (lit " "))).
  reflexivity. Defined.

Lemma js_str_eqb_eq (a b : jsstring) : js_str_eqb a b = true <-> a = b.
Proof.
  revert b. induction a as [|x a IH]; intros [|y b]; cbn; split; intro H;
    try discriminate H; try reflexivity.
  - apply andb_true_iff in H as [H1 H2]. apply N.eqb_eq in H1. apply IH in H2. subst. reflexivity.
  - injection H as <- <-. rewrite N.eqb_refl. apply IH. reflexivity.
Qed.

Lemma num_or_zero_not_nan (y : float) : is_nan (num_or (Some y) 0) = false.
Proof.
  cbn [num_or]. unfold num_truthy. destruct (is_nan y) eqn:E; cbn [negb andb].
  - reflexivity.
  - destruct (y =? 0); [reflexivity|exact E].
Qed.

Lemma strip_quotes_no_char (s : jsstring) : no_char quote_char (strip_quotes s) = true.
Proof.
  induction s as [|x s IH]; [reflexivity|].
  unfold strip_quotes in *. cbn [filter].
  destruct (N.eqb x quote_char) eqn:E; cbn [negb]; [exact IH|].
  cbn [no_char forallb]. rewrite E. exact IH.
Qed.

(** Type coercion of one cell: every field value is free of quote
    characters; an integer column ([PassengerId], [Survived], [Pclass],
    [SibSp], [Parch]) always holds a number that is not NaN, 0 when
    [parseInt] gives NaN; [Age] and [Fare] hold [null] for an empty value
    and [parseFloat] of the value otherwise; any other column holds the
    value as a string. *)
Theorem coerce_by_header (parseInt parseFloat : jsstring -> float)
    (values : list jsstring) (i : nat) (h : jsstring) :
  let v := field_value values i in
  no_char quote_char v = true /\
  (In h int_headers ->
     exists x, coerce parseInt parseFloat h v = JNum x /\ is_nan x = false /\
               (is_nan (parseInt v) = true -> x = 0)) /\
  (In h float_headers ->
     coerce parseInt parseFloat h v = match v with [] => JNull | _ => JNum (parseFloat v) end) /\
  (~ In h int_headers -> ~ In h float_headers -> coerce parseInt parseFloat h v = JStr v).
Proof.
  intro v.
  assert (HI : forall h, existsb (js_str_eqb h) int_headers = true <-> In h int_headers).
  { intro k. rewrite existsb_exists. split.
    - intros [y [Hy E]]. apply js_str_eqb_eq in E. subst. exact Hy.
    - intro Hk. exists k. split; [exact Hk|]. apply js_str_eqb_eq. reflexivity. }
  assert (HF : forall h, existsb (js_str_eqb h) float_headers = true <-> In h float_headers).
  { intro k. rewrite existsb_exists. split.
    - intros [y [Hy E]]. apply js_str_eqb_eq in E. subst. exact Hy.
    - intro Hk. exists k. split; [exact Hk|]. apply js_str_eqb_eq. reflexivity. }
  split; [|split; [|split]].
  - unfold v, field_value. destruct (nth_error values i); [|reflexivity].
    pose proof (strip_quotes_no_char j) as Hq. destruct (strip_quotes j); exact Hq.
  - intro Hh. apply HI in Hh. unfold coerce. fold int_headers. rewrite Hh.
    eexists. split; [reflexivity|]. split; [apply num_or_zero_not_nan|].
    intro Hn. cbn [num_or]. unfold num_truthy. rewrite Hn. reflexivity.
  - intro Hh. unfold coerce. fold int_headers float_headers.
    replace (existsb (js_str_eqb h) int_headers) with false.
    + apply HF in Hh. rewrite Hh. reflexivity.
    + destruct Hh as [<-|[<-|[]]]; reflexivity.
  - intros H1 H2. unfold coerce. fold int_headers float_headers.
    destruct (existsb (js_str_eqb h) int_headers) eqn:E1; [apply HI in E1; contradiction|].
    destruct (existsb (js_str_eqb h) float_headers) eqn:E2; [apply HF in E2; contradiction|].
    reflexivity.
Qed.

Lemma coerce_by_header_witness :
  coerce (fun _ => nan) (fun _ => 0) (lit "Survived") (field_value [lit "x"] 0) = JNum 0.
Proof.
  destruct (proj1 (proj2 (coerce_by_header (fun _ => nan) (fun _ => 0) [lit "x"] 0 (lit "Survived")))
    (or_intror (or_introl eq_refl))) as [x [E [_ Hz]]].
  rewrite E, Hz by reflexivity. reflexivity.
Defined.

Lemma get_set_own_same (obj : jsobject) (k : jsstring) (v : jsvalue) :
  get_prop (set_own obj k v) k = Some v.
Proof.
  unfold get_prop. induction obj as [|[k0 w] obj IH]; cbn [set_own find fst].
  - rewrite (proj2 (js_str_eqb_eq k k) eq_refl). reflexivity.
  - destruct (js_str_eqb k0 k) eqn:E; cbn [find fst]; rewrite ?E; [reflexivity|exact IH].
Qed.

Lemma get_set_own_other (obj : jsobject) (k k' : jsstring) (v : jsvalue) :
  k <> k' -> get_prop (set_own obj k v) k' = get_prop obj k'.
Proof.
  intro Hne. unfold get_prop. induction obj as [|[k0 w] obj IH]; cbn [set_own find fst].
  - destruct (js_str_eqb k k') eqn:E; [apply js_str_eqb_eq in E; contradiction|reflexivity].
  - destruct (js_str_eqb k0 k) eqn:E; cbn [find fst].
    + apply js_str_eqb_eq in E. subst k0.
      destruct (js_str_eqb k k') eqn:E'; [apply js_str_eqb_eq in E'; contradiction|reflexivity].
    + destruct (js_str_eqb k0 k'); [reflexivity|exact IH].
Qed.

Lemma get_set_same (obj : jsobject) (k : jsstring) (v : jsvalue) :
  k <> lit "__proto__" -> get_prop (set_prop obj k v) k = Some v.
Proof.
  intro Hk. unfold set_prop.
  destruct (js_str_eqb k (lit "__proto__")) eqn:E.
  - apply js_str_eqb_eq in E. contradiction.
  - apply get_set_own_same.
Qed.

Lemma get_set_proto (obj : jsobject) (v : jsvalue) :
  set_prop obj (lit "__proto__") v = obj.
Proof. reflexivity. Qed.

Lemma get_set_other (obj : jsobject) (k k' : jsstring) (v : jsvalue) :
  k <> k' -> get_prop (set_prop obj k v) k' = get_prop obj k'.
Proof.
  intro Hne. unfold set_prop.
  destruct (js_str_eqb k (lit "__proto__")); [reflexivity|].
  apply get_set_own_other. exact Hne.
Qed.

Lemma fill_lookup (parseInt parseFloat : jsstring -> float) (values : list jsstring)
    (headers : list jsstring) (index : nat) (obj : jsobject) :
  NoDup headers ->
  (forall j h, nth_error headers j = Some h -> h <> lit "__proto__" ->
     get_prop (fill parseInt parseFloat headers index values obj) h
     = Some (coerce parseInt parseFloat h (field_value values (index + j)))) /\
  (forall k, (~ In k headers \/ k = lit "__proto__") ->
     get_prop (fill parseInt parseFloat headers index values obj) k = get_prop obj k).
Proof.
  revert index obj. induction headers as [|h0 hs IH]; intros index obj Hnd.
  - split; [intros [|j] h E; discriminate E | reflexivity].
  - inversion Hnd as [|? ? Hnin Hnd']; subst.
    destruct (IH (S index) (set_prop obj h0 (coerce parseInt parseFloat h0 (field_value values index))) Hnd')
      as [IH1 IH2].
    split.
    + intros [|j] h E Hp; cbn [fill].
      * injection E as <-. rewrite IH2 by (left; exact Hnin).
        rewrite get_set_same, Nat.add_0_r by exact Hp. reflexivity.
      * cbn [nth_error] in E. rewrite (IH1 j h E Hp), Nat.add_succ_r. reflexivity.
    + intros k Hk. cbn [fill].
      destruct Hk as [Hk|Hk].
      * rewrite IH2 by (left; intro H; apply Hk; right; exact H).
        apply get_set_other. intro E. apply Hk. left. exact E.
      * rewrite IH2 by (right; exact Hk).
        destruct (js_str_eqb h0 (lit "__proto__")) eqn:E.
        -- apply js_str_eqb_eq in E. subst h0. rewrite get_set_proto. reflexivity.
        -- apply get_set_other. intro E'. subst. rewrite (proj2 (js_str_eqb_eq _ _) eq_refl) in E.
           discriminate E.
Qed.

(** Columns are mapped by the header row: with distinct header names, the
    record of a line has, for the header in column i, an own property
    holding the coerced value of the line's i-th field (the empty string
    past the end of a short row), except for the header [__proto__], whose
    assignment goes to the inherited accessor and creates no own property;
    and it has no own property for a name that is not a header. *)
Theorem row_of_maps_by_header (parseInt parseFloat : jsstring -> float)
    (headers : list jsstring) (line : jsstring) :
  NoDup headers ->
  (forall i h, nth_error headers i = Some h -> h <> lit "__proto__" ->
     get_prop (row_of parseInt parseFloat headers line) h
     = Some (coerce parseInt parseFloat h (field_value (parseCSVLine line) i))) /\
  get_prop (row_of parseInt parseFloat headers line) (lit "__proto__") = None /\
  (forall k, ~ In k headers -> get_prop (row_of parseInt parseFloat headers line) k = None) /\
  (forall i, List.length (parseCSVLine line) <= i -> field_value (parseCSVLine line) i = []).
Proof.
  intro Hnd. destruct (fill_lookup parseInt parseFloat (parseCSVLine line) headers 0 [] Hnd)
    as [H1 H2].
  split; [|split; [|split]].
  - intros i h E Hp. exact (H1 i h E Hp).
  - exact (H2 (lit "__proto__") (or_intror eq_refl)).
  - intros k Hk. exact (H2 k (or_introl Hk)).
  - intros i Hi. unfold field_value. apply nth_error_None in Hi. rewrite Hi. reflexivity.
Qed.

Lemma row_of_maps_by_header_witness :
  get_prop (row_of (fun _ => 0) (fun _ => 0) [lit "Name"; lit "Cabin"] (lit "Bob")) (lit "Cabin")
  = Some (JStr []).
Proof.
  assert (Hnd : NoDup [lit "Name"; lit "Cabin"]).
  { constructor; [intros [E|[]]; discriminate E|constructor; [intros []|constructor]]. }
  rewrite (proj1 (row_of_maps_by_header (fun _ => 0) (fun _ => 0) [lit "Name"; lit "Cabin"]
    (lit "Bob") Hnd) 1%nat (lit "Cabin") eq_refl) by discriminate.
  reflexivity.
Defined.
